(** * load_orders.py: loading order records from JSON into the SQLite table [orders]

    A shallow embedding of [OrdersDatabase] (connect, close, create_schema,
    get_existing_order_ids, insert_orders), of [load_json] and of [main],
    followed by the properties of the insertion pipeline.

    Conventions of the embedding.
    - A Python statement that may raise is a value of [result]; the
      [except] clauses of the source are functions on the exception.
    - JSON values are the values [json.load] produces: [None], [bool],
      [int], [float], [str], [list], [dict].
    - [existing_ids] is annotated [set[str]] in the source, so the value of
      [raw["order_id"]] is a [str] here; all other fields of a record are
      arbitrary JSON values.
    - [datetime.fromisoformat] and the JSON decoder are library functions:
      the development is parametric in them.
    - Log messages are not represented. *)

From Stdlib Require Import ZArith String Ascii Floats.SpecFloat.
From stdpp Require Import gmap strings list.

Set Warnings "-register-all,-clear-no-such-hyp".
Local Open Scope Z_scope.

(** ** Python exceptions and results *)

Module Py.

(** The exception classes the two functions can meet.  All of them derive
    from [Exception]; the last three are those of [sqlite3]. *)
Inductive exn : Type :=
  | KeyError (key : string)
  | TypeError
  | AttributeError
  | ValueError
  | OverflowError
  | FileNotFoundError
  | JSONDecodeError
  | IntegrityError
  | ProgrammingError
  | OperationalError.

Inductive result (A : Type) : Type :=
  | Ok (a : A)
  | Raise (e : exn).
Arguments Ok {A} a.
Arguments Raise {A} e.

#[export] Instance result_ret : MRet result := λ A a, Ok a.
#[export] Instance result_bind : MBind result := λ A B f m,
  match m with
  | Ok a => f a
  | Raise e => Raise e
  end.

End Py.
Export Py.

(** ** JSON values *)

Inductive json : Type :=
  | JNull
  | JBool (b : bool)
  | JInt (n : Z)
  | JFloat (f : spec_float)
  | JStr (s : string)
  | JArr (l : list json)
  | JObj (o : gmap string json).

(** [len(data)]: defined on lists, dicts and strings only. *)
Definition py_len (v : json) : result Z :=
  match v with
  | JArr l => Ok (Z.of_nat (length l))
  | JObj o => Ok (Z.of_nat (size o))
  | JStr s => Ok (Z.of_nat (String.length s))
  | _ => Raise TypeError
  end.

(** One element of the [orders] list: the dict [raw], by the five keys the
    loop reads.  [None] is an absent key. *)
Record raw_order : Type := RawOrder {
  raw_order_id : option string;
  raw_status : option json;
  raw_date : option json;
  raw_amount : option json;
  raw_customer : option json
}.

(** [raw[key]] *)
Definition getitem {A} (key : string) (field : option A) : result A :=
  match field with
  | Some v => Ok v
  | None => Raise (KeyError key)
  end.

(** [raw.get("customer", {}).get("region")]: [dict.get] exists on dicts
    only, and yields [None] both for an absent key and for a stored
    [null]. *)
Definition get_customer_region (customer : option json) : result json :=
  match customer with
  | None => Ok JNull
  | Some (JObj o) => Ok (default JNull (o !! "region"%string))
  | Some _ => Raise AttributeError
  end.

(** ** Timestamps *)

Record datetime : Type := DateTime {
  year : Z; month : Z; day : Z;
  hour : Z; minute : Z; second : Z; microsecond : Z;
  utcoffset : option Z
}.

(** ** The SQLite side *)

Module Sqlite.

(** Storage classes of the values bound to the INSERT statement. *)
Inductive value : Type :=
  | Null
  | Integer (n : Z)
  | Real (f : spec_float)
  | Text (s : string).

Definition is_null (v : value) : bool :=
  match v with Null => true | _ => false end.

Definition is_nan (f : spec_float) : bool :=
  match f with S754_nan => true | _ => false end.

Definition int64 (n : Z) : bool :=
  (- 2 ^ 63 <=? n) && (n <? 2 ^ 63).

(** Binding one Python value to a [?] placeholder.  [bool] is an [int];
    an [int] outside 64 bits raises [OverflowError]; a NaN is bound as
    NULL; lists and dicts are not supported. *)
Definition bind_parameter (v : json) : result value :=
  match v with
  | JNull => Ok Null
  | JBool b => Ok (Integer (if b then 1 else 0))
  | JInt n => if int64 n then Ok (Integer n) else Raise OverflowError
  | JFloat f => Ok (if is_nan f then Null else Real f)
  | JStr s => Ok (Text s)
  | JArr _ | JObj _ => Raise ProgrammingError
  end.

(** A row of [orders], by the five columns the INSERT names, holding the
    values as they were bound ([order_dt] is kept as the [datetime]
    it is adapted from).  [loaded_at] is filled in by SQLite with the
    time of the insertion and is not represented. *)
Record row : Type := Row {
  order_id : string;
  status : value;
  date : datetime;
  amount : value;
  customer_region : value
}.

(** [SELECT order_id FROM orders], in row order. *)
Definition order_ids (t : list row) : list string := order_id <$> t.

(** [INSERT INTO orders (order_id, status, date, amount, customer_region)
    VALUES (?, ?, ?, ?, ?)]: the parameters are bound left to right, then
    the NOT NULL columns and the primary key are checked. *)
Definition insert (t : list row) (oid : string) (st : json) (dt : datetime)
    (am : json) (region : json) : result (list row) :=
  st' ← bind_parameter st;
  am' ← bind_parameter am;
  region' ← bind_parameter region;
  if is_null st' || is_null am' || is_null region' then Raise IntegrityError
  else if bool_decide (oid ∈ order_ids t) then Raise IntegrityError
  else Ok (t ++ [Row oid st' dt am' region']).

End Sqlite.

(** ** OrdersDatabase *)

Inductive connection : Type := Open | Closed.

(** [conn] is [self.conn]; [orders_table] is the table [orders] of the file
    [db_path] ([None] while the table does not exist). *)
Record OrdersDatabase : Type := mkOrdersDatabase {
  conn : option connection;
  orders_table : option (list Sqlite.row)
}.

(** [OrdersDatabase(db_path, logger)] on a file holding [file]. *)
Definition init (file : option (list Sqlite.row)) : OrdersDatabase :=
  {| conn := None; orders_table := file |}.

(** A method: the outcome and the object after the call (an exception
    leaves the assignments made before it in place). *)
Definition method (A : Type) : Type := OrdersDatabase → result A * OrdersDatabase.

(** [connect]: [can_open] tells whether [sqlite3.connect] succeeds. *)
Definition connect (can_open : bool) : method unit := λ db,
  if can_open
  then (Ok (), {| conn := Some Open; orders_table := orders_table db |})
  else (Raise OperationalError, db).

(** [close]: [self.conn] is falsy only while it is [None]; closing a closed
    connection does nothing. *)
Definition close : method unit := λ db,
  match conn db with
  | Some _ => (Ok (), {| conn := Some Closed; orders_table := orders_table db |})
  | None => (Ok (), db)
  end.

(** [self.conn.cursor()] *)
Definition cursor (db : OrdersDatabase) : result unit :=
  match conn db with
  | None => Raise AttributeError
  | Some Closed => Raise ProgrammingError
  | Some Open => Ok ()
  end.

Definition create_schema : method unit := λ db,
  match cursor db with
  | Raise e => (Raise e, db)
  | Ok _ =>
      (Ok (), {| conn := conn db;
                 orders_table := Some (default [] (orders_table db)) |})
  end.

Definition get_existing_order_ids (db : OrdersDatabase) : result (gset string) :=
  _ ← cursor db;
  match orders_table db with
  | None => Raise OperationalError
  | Some t => Ok (list_to_set (Sqlite.order_ids t))
  end.

(** The variables of the loop of [insert_orders]; [rows] is the table as
    the cursor sees it. *)
Record loop_state : Type := LoopState {
  rows : list Sqlite.row;
  existing_ids : gset string;
  inserted : Z;
  skipped : Z;
  errors : Z
}.

Definition add_skipped (s : loop_state) : loop_state :=
  {| rows := rows s; existing_ids := existing_ids s;
     inserted := inserted s; skipped := skipped s + 1; errors := errors s |}.

Definition add_error (s : loop_state) : loop_state :=
  {| rows := rows s; existing_ids := existing_ids s;
     inserted := inserted s; skipped := skipped s; errors := errors s + 1 |}.

Definition add_inserted (t : list Sqlite.row) (oid : string) (s : loop_state) : loop_state :=
  {| rows := t; existing_ids := {[ oid ]} ∪ existing_ids s;
     inserted := inserted s + 1; skipped := skipped s; errors := errors s |}.

(** The [except] clauses of the loop, in the order of the source. *)
Definition handle (s : loop_state) (e : exn) : loop_state :=
  match e with
  | KeyError _ => add_error s
  | IntegrityError => add_skipped s
  | _ => add_error s
  end.

(** The connected store whose table holds the rows [t]. *)
Definition opened (t : list Sqlite.row) : OrdersDatabase :=
  {| conn := Some Open; orders_table := Some t |}.

(** The record and the row of the single-record scenario.  The amount is
    the binary64 number nearest to 9.99, 5623870034678907 * 2^-49, which
    is the [float] that [json.load] gives for [9.99]. *)
Definition order_A1 : raw_order :=
  RawOrder (Some "A1"%string) (Some (JStr "paid")) (Some (JStr "2024-01-05T10:00:00"))
    (Some (JFloat (S754_finite false 5623870034678907 (-49))))
    (Some (JObj {[ "region"%string := JStr "EU" ]})).

Definition row_A1 : Sqlite.row :=
  Sqlite.Row "A1" (Sqlite.Text "paid") (DateTime 2024 1 5 10 0 0 0 None)
    (Sqlite.Real (S754_finite false 5623870034678907 (-49))) (Sqlite.Text "EU").

(** Further sample records: a second valid record, and records under a
    given key that lack [status], carry a date that is no timestamp, or
    lack [customer]. *)
Definition order_B2 : raw_order :=
  RawOrder (Some "B2"%string) (Some (JStr "new")) (Some (JStr "2024-02-10"))
    (Some (JInt 20)) (Some (JObj {[ "region"%string := JStr "US" ]})).

Definition without_status (oid : string) : raw_order :=
  RawOrder (Some oid) None (Some (JStr "2024-01-05T10:00:00"))
    (Some (JInt 5)) (Some (JObj {[ "region"%string := JStr "EU" ]})).

Definition with_bad_date (oid : string) : raw_order :=
  RawOrder (Some oid) (Some (JStr "paid")) (Some (JStr "not-a-date"))
    (Some (JInt 5)) (Some (JObj {[ "region"%string := JStr "EU" ]})).

Definition without_customer (oid : string) : raw_order :=
  RawOrder (Some oid) (Some (JStr "paid")) (Some (JStr "2024-01-05T10:00:00"))
    (Some (JInt 5)) None.

(** ** Instances of the library functions

    A decoder for the two timestamp forms [YYYY-MM-DD] and
    [YYYY-MM-DD?hh:mm:ss] (any separator character), and a decoder for the
    JSON documents made of one literal.  They instantiate the parameters
    where a statement is evaluated on concrete data. *)

Module Reference.

Definition digit (c : ascii) : option Z :=
  let n := Z.of_N (N_of_ascii c) in
  if (48 <=? n) && (n <=? 57) then Some (n - 48) else None.

Fixpoint number (acc : Z) (cs : list ascii) : option Z :=
  match cs with
  | [] => Some acc
  | c :: cs' => d ← digit c; number (10 * acc + d) cs'
  end.

Definition is_char (c : ascii) (cs : list ascii) : bool :=
  match cs with
  | [c'] => Ascii.eqb c c'
  | _ => false
  end.

Definition leap (y : Z) : bool :=
  ((y mod 4 =? 0) && negb (y mod 100 =? 0)) || (y mod 400 =? 0).

Definition days_in_month (y m : Z) : Z :=
  if m =? 2 then (if leap y then 29 else 28)
  else if (m =? 4) || (m =? 6) || (m =? 9) || (m =? 11) then 30
  else 31.

Definition in_range (lo hi n : Z) : bool := (lo <=? n) && (n <=? hi).

Definition date_of (cs : list ascii) : option (Z * Z * Z) :=
  y ← number 0 (take 4 cs);
  m ← number 0 (take 2 (drop 5 cs));
  d ← number 0 (take 2 (drop 8 cs));
  if is_char "-" (take 1 (drop 4 cs)) && is_char "-" (take 1 (drop 7 cs))
     && in_range 1 9999 y && in_range 1 12 m && in_range 1 (days_in_month y m) d
  then Some (y, m, d) else None.

Definition time_of (cs : list ascii) : option (Z * Z * Z) :=
  h ← number 0 (take 2 cs);
  mi ← number 0 (take 2 (drop 3 cs));
  s ← number 0 (take 2 (drop 6 cs));
  if is_char ":" (take 1 (drop 2 cs)) && is_char ":" (take 1 (drop 5 cs))
     && in_range 0 23 h && in_range 0 59 mi && in_range 0 59 s
  then Some (h, mi, s) else None.

Definition fromisoformat (s : string) : option datetime :=
  let cs := list_ascii_of_string s in
  if (length cs =? 10)%nat then
    '(y, m, d) ← date_of cs;
    Some (DateTime y m d 0 0 0 0 None)
  else if (length cs =? 19)%nat then
    '(y, m, d) ← date_of (take 10 cs);
    '(h, mi, sec) ← time_of (drop 11 cs);
    Some (DateTime y m d h mi sec 0 None)
  else None.

Definition json_load (text : string) : option json :=
  if String.eqb text "null" then Some JNull
  else if String.eqb text "true" then Some (JBool true)
  else if String.eqb text "false" then Some (JBool false)
  else if String.eqb text "[]" then Some (JArr [])
  else if String.eqb text "{}" then Some (JObj ∅)
  else None.

End Reference.

(** ** load_json *)

Section LoadJson.

(** [json.load] on the text of the file; [None] when it raises
    [json.JSONDecodeError]. *)
Variable json_load : string → option json.

(** [fs] maps the paths that exist to the text of the file.  The record
    count of the log line is computed with [len], which raises on a
    document that is a number, a boolean or [null]. *)
Definition load_json (fs : gmap string string) (path : string) : result json :=
  match fs !! path with
  | None => Raise FileNotFoundError
  | Some text =>
      match json_load text with
      | None => Raise JSONDecodeError
      | Some data => _ ← py_len data; Ok data
      end
  end.

End LoadJson.

(** ** The loop of insert_orders *)

Section Loader.

(** [datetime.fromisoformat] on a [str]; [None] when it raises
    [ValueError]. *)
Variable fromisoformat : string → option datetime.

(** [datetime.fromisoformat(date_str)] on any value. *)
Definition parse_date (date_str : json) : result datetime :=
  match date_str with
  | JStr s =>
      match fromisoformat s with
      | Some dt => Ok dt
      | None => Raise ValueError
      end
  | _ => Raise TypeError
  end.

(** The body of the [try] of one iteration.  [Ok] is the state at the end
    of the body or at a [continue]; [Raise] leaves the state as it was,
    since no statement after the INSERT can raise. *)
Definition try_order (s : loop_state) (raw : raw_order) : result loop_state :=
  order_id ← getitem "order_id" (raw_order_id raw);
  if bool_decide (order_id ∈ existing_ids s) then Ok (add_skipped s)
  else
    status ← getitem "status" (raw_status raw);
    date_str ← getitem "date" (raw_date raw);
    amount ← getitem "amount" (raw_amount raw);
    customer_region ← get_customer_region (raw_customer raw);
    match parse_date date_str with
    | Raise _ => Ok (add_error s)
    | Ok order_dt =>
        match customer_region with
        | JNull => Ok (add_error s)
        | _ =>
            t ← Sqlite.insert (rows s) order_id status order_dt amount customer_region;
            Ok (add_inserted t order_id s)
        end
    end.

(** One iteration of [for raw in orders]. *)
Definition insert_order (s : loop_state) (raw : raw_order) : loop_state :=
  match try_order s raw with
  | Ok s' => s'
  | Raise e => handle s e
  end.

Definition insert_loop (s : loop_state) (orders : list raw_order) : loop_state :=
  foldl insert_order s orders.

(** The state on entry to the loop. *)
Definition loop_entry (t : list Sqlite.row) (ids : gset string) : loop_state :=
  {| rows := t; existing_ids := ids; inserted := 0; skipped := 0; errors := 0 |}.

(** [insert_orders]: the baseline query is fatal when it fails; the
    [commit] after the loop writes the rows to the file. *)
Definition insert_orders (orders : list raw_order) : method (Z * Z * Z) := λ db,
  match get_existing_order_ids db with
  | Raise e => (Raise e, db)
  | Ok ids =>
      let s := insert_loop (loop_entry (default [] (orders_table db)) ids) orders in
      (Ok (inserted s, skipped s, errors s),
       {| conn := conn db; orders_table := Some (rows s) |})
  end.

(** *** Vocabulary of the statements *)

(** An amount SQLite stores in the REAL NOT NULL column: an integer of
    64 bits or a float other than NaN. *)
Definition is_amount (v : json) : bool :=
  match v with
  | JInt n => Sqlite.int64 n
  | JFloat f => negb (Sqlite.is_nan f)
  | _ => false
  end.

Definition has_region (o : gmap string json) : bool :=
  match o !! "region"%string with
  | Some (JStr _) => true
  | _ => false
  end.

(** A record of the shape of the data model: [order_id], [status] and
    [date] strings, the date one that [fromisoformat] accepts, a numeric
    [amount], and a [customer] mapping with a string [region]. *)
Definition valid_order (raw : raw_order) : bool :=
  match raw_order_id raw, raw_status raw, raw_date raw,
        raw_amount raw, raw_customer raw with
  | Some _, Some (JStr _), Some (JStr d), Some a, Some (JObj o) =>
      bool_decide (is_Some (fromisoformat d)) && is_amount a && has_region o
  | _, _, _, _, _ => false
  end.

(** The state at the head of the loop of [insert_orders] on a table [t]. *)
Definition baseline (t : list Sqlite.row) : loop_state :=
  loop_entry t (list_to_set (Sqlite.order_ids t)).


(** What one iteration can do to the loop state. *)
Inductive outcome (s : loop_state) (raw : raw_order) : loop_state → Prop :=
  | outcome_skipped : outcome s raw (add_skipped s)
  | outcome_error : outcome s raw (add_error s)
  | outcome_inserted (r : Sqlite.row) :
      raw_order_id raw = Some (Sqlite.order_id r) →
      Sqlite.order_id r ∉ existing_ids s →
      Sqlite.order_id r ∉ Sqlite.order_ids (rows s) →
      outcome s raw (add_inserted (rows s ++ [r]) (Sqlite.order_id r) s).

(** The date of the record is present and [fromisoformat] raises on it. *)
Definition unparsable_date (raw : raw_order) : Prop :=
  ∃ v e, raw_date raw = Some v ∧ parse_date v = Raise e.

(** [customer.region] is absent: no [customer], or a mapping without
    the key [region]. *)
Definition region_absent (raw : raw_order) : Prop :=
  raw_customer raw = None ∨
  ∃ o, raw_customer raw = Some (JObj o) ∧ o !! "region"%string = None.

(** The [order_id] of the record, if it has one, is not in the
    existing-key set. *)
Definition not_existing (s : loop_state) (raw : raw_order) : Prop :=
  ∀ oid, raw_order_id raw = Some oid → oid ∉ existing_ids s.

(** The [order_id]s of the records of a batch that have one. *)
Definition batch_ids (orders : list raw_order) : list string :=
  omap raw_order_id orders.

(** Every key of the table is in the existing-key set. *)
Definition keys_known (s : loop_state) : Prop :=
  ∀ oid, oid ∈ Sqlite.order_ids (rows s) → oid ∈ existing_ids s.

(** The number of records counted so far. *)
Definition counted (s : loop_state) : Z := inserted s + skipped s + errors s.

(** The rows of a table stored under a key. *)
Definition rows_of (oid : string) (t : list Sqlite.row) : list Sqlite.row :=
  filter (λ r, Sqlite.order_id r = oid) t.

(** Exactly one counter moves, by one. *)
Definition one_counted (s s' : loop_state) : Prop :=
  (inserted s' = inserted s + 1 ∧ skipped s' = skipped s ∧ errors s' = errors s) ∨
  (inserted s' = inserted s ∧ skipped s' = skipped s + 1 ∧ errors s' = errors s) ∨
  (inserted s' = inserted s ∧ skipped s' = skipped s ∧ errors s' = errors s + 1).


(** *** Further vocabulary *)

(** Every key of the existing-key set is a key of the table. *)
Definition keys_stored (s : loop_state) : Prop :=
  ∀ oid, oid ∈ existing_ids s → oid ∈ Sqlite.order_ids (rows s).

(** Two loop states that differ in their counters only. *)
Definition same_store (s s' : loop_state) : Prop :=
  rows s = rows s' ∧ existing_ids s = existing_ids s'.

(** What an iteration does, apart from the state it does it to. *)
Inductive effect : Type :=
  | Skips
  | Rejects
  | Inserts (r : Sqlite.row).

Definition apply_effect (f : effect) (s : loop_state) : loop_state :=
  match f with
  | Skips => add_skipped s
  | Rejects => add_error s
  | Inserts r => add_inserted (rows s ++ [r]) (Sqlite.order_id r) s
  end.

(** The columns that are declared NOT NULL hold a value. *)
Definition row_complete (r : Sqlite.row) : bool :=
  negb (Sqlite.is_null (Sqlite.status r)) &&
  negb (Sqlite.is_null (Sqlite.amount r)) &&
  negb (Sqlite.is_null (Sqlite.customer_region r)).

(** The row [r] holds the fields of the record [raw]: its key, its
    [status] and [amount] as they are bound, its [date] as
    [fromisoformat] reads it, and its [customer.region] as it is bound. *)
Definition row_of_order (raw : raw_order) (r : Sqlite.row) : Prop :=
  raw_order_id raw = Some (Sqlite.order_id r) ∧
  (∃ v, raw_status raw = Some v ∧ Sqlite.bind_parameter v = Ok (Sqlite.status r)) ∧
  (∃ d, raw_date raw = Some (JStr d) ∧ fromisoformat d = Some (Sqlite.date r)) ∧
  (∃ v, raw_amount raw = Some v ∧ Sqlite.bind_parameter v = Ok (Sqlite.amount r)) ∧
  (∃ o v, raw_customer raw = Some (JObj o) ∧ o !! "region"%string = Some v ∧
          Sqlite.bind_parameter v = Ok (Sqlite.customer_region r)).

(** The record gets to the INSERT statement, with these parameters: it has
    the four required keys, its [order_id] is not in the existing-key
    set, its date is read as [dt] and its region is not [None]. *)
Definition reaches_insert (s : loop_state) (raw : raw_order)
    (oid : string) (st : json) (dt : datetime) (am region : json) : Prop :=
  raw_order_id raw = Some oid ∧ (oid ∉ existing_ids s) ∧
  raw_status raw = Some st ∧
  (∃ d, raw_date raw = Some (JStr d) ∧ fromisoformat d = Some dt) ∧
  raw_amount raw = Some am ∧
  get_customer_region (raw_customer raw) = Ok region ∧ region ≠ JNull.

(** [customer] is present and is no mapping, or its [region] is
    [null]. *)
Definition region_unusable (raw : raw_order) : Prop :=
  (∃ c, raw_customer raw = Some c ∧ ∀ o, c ≠ JObj o) ∨
  (∃ o, raw_customer raw = Some (JObj o) ∧ o !! "region"%string = Some JNull).

(** *** main *)

(** One element of the decoded document as the dict [raw]: a dict whose
    [order_id], when present, is a [str].  Other elements are not
    records of the embedding. *)
Definition raw_of_json (v : json) : option raw_order :=
  match v with
  | JObj o =>
      match o !! "order_id"%string with
      | None =>
          Some (RawOrder None (o !! "status"%string) (o !! "date"%string)
                  (o !! "amount"%string) (o !! "customer"%string))
      | Some (JStr oid) =>
          Some (RawOrder (Some oid) (o !! "status"%string) (o !! "date"%string)
                  (o !! "amount"%string) (o !! "customer"%string))
      | Some _ => None
      end
  | _ => None
  end.

(** The decoded document as the list [orders]. *)
Definition orders_of_json (data : json) : option (list raw_order) :=
  match data with
  | JArr l => mapM raw_of_json l
  | _ => None
  end.

(** What a run of [main] leaves: the exception it ends with, the triple
    of its summary line, and the [OrdersDatabase] object if one was
    made. *)
Record run : Type := Run {
  raised : option exn;
  summary : option (Z * Z * Z);
  database : option OrdersDatabase
}.

(** The [finally] clause: [db.close()] when [db] is bound. *)
Definition finally (e : option exn) (c : option (Z * Z * Z)) (db : OrdersDatabase) : run :=
  {| raised := e; summary := c; database := Some (snd (close db)) |}.

(** [main], on the files [fs] and the table [file] of [orders.db];
    [can_open] tells whether [sqlite3.connect] succeeds.  The result is
    [None] on a document that [load_json] returns and that is no list of
    records of the embedding. *)
Definition main (json_load : string → option json) (fs : gmap string string)
    (can_open : bool) (file : option (list Sqlite.row)) : option run :=
  match load_json json_load fs "orders-1.json" with
  | Raise e => Some {| raised := Some e; summary := None; database := None |}
  | Ok data =>
      orders ← orders_of_json data;
      let db := init file in
      Some
        match connect can_open db with
        | (Raise e, db) => finally (Some e) None db
        | (Ok _, db) =>
            match create_schema db with
            | (Raise e, db) => finally (Some e) None db
            | (Ok _, db) =>
                match insert_orders orders db with
                | (Raise e, db) => finally (Some e) None db
                | (Ok counts, db) => finally None (Some counts) db
                end
            end
        end
  end.

(** The document of the single-record scenario, as [json.load] decodes
    it. *)
Definition document_A1 : json :=
  JArr [JObj {[ "order_id"%string := JStr "A1";
                "status"%string := JStr "paid";
                "date"%string := JStr "2024-01-05T10:00:00";
                "amount"%string := JFloat (S754_finite false 5623870034678907 (-49));
                "customer"%string := JObj {[ "region"%string := JStr "EU" ]} ]}].

(** A sample record dated 2024-01-05 with a given key, status, amount and
    [customer]. *)
Definition with_fields (oid : string) (st am customer : json) : raw_order :=
  RawOrder (Some oid) (Some st) (Some (JStr "2024-01-05")) (Some am) (Some customer).

Definition customer_EU : json := JObj {[ "region"%string := JStr "EU" ]}.

(** The files of a run of [main] on the document [document_A1]. *)
Definition decoder_A1 : string → option json := λ _, Some document_A1.

Definition files_A1 : gmap string string :=
  {[ "orders-1.json"%string := "[...]"%string ]}.

(** The row of [order_B2]. *)
Definition row_B2 : Sqlite.row :=
  Sqlite.Row "B2" (Sqlite.Text "new") (DateTime 2024 2 10 0 0 0 0 None)
    (Sqlite.Integer 20) (Sqlite.Text "US").

(** *** One iteration *)

Lemma bind_ok {A B} (m : result A) (f : A → result B) (b : B) :
  m ≫= f = Ok b → ∃ a, m = Ok a ∧ f a = Ok b.
Proof. destruct m as [a|e]; [eauto | discriminate]. Qed.

(** A successful INSERT appends one row with the given key, which was
    not a key of the table. *)
Lemma insert_ok t oid st dt am region t' :
  Sqlite.insert t oid st dt am region = Ok t' →
  ∃ r, t' = t ++ [r] ∧ Sqlite.order_id r = oid ∧ oid ∉ Sqlite.order_ids t.
Proof.
  unfold Sqlite.insert. intros H.
  apply bind_ok in H as (st' & _ & H).
  apply bind_ok in H as (am' & _ & H).
  apply bind_ok in H as (region' & _ & H).
  destruct (_ || _); [discriminate|].
  case_bool_decide; [discriminate|].
  injection H as <-. eauto.
Qed.

Lemma try_order_ok s raw s' :
  try_order s raw = Ok s' → outcome s raw s'.
Proof.
  unfold try_order. intros H.
  apply bind_ok in H as (oid & Hoid & H).
  destruct (raw_order_id raw) as [oid'|] eqn:Eid; [|discriminate].
  injection Hoid as ->.
  case_bool_decide as Hin.
  { injection H as <-. constructor. }
  apply bind_ok in H as (st & _ & H).
  apply bind_ok in H as (ds & _ & H).
  apply bind_ok in H as (am & _ & H).
  apply bind_ok in H as (region & _ & H).
  destruct (parse_date ds) as [dt|e].
  2:{ injection H as <-. constructor. }
  destruct region;
    try (injection H as <-; constructor);
    apply bind_ok in H as (t & Ht & H); injection H as <-;
    apply insert_ok in Ht as (r & -> & <- & Hfresh);
    by constructor.
Qed.

(** Each iteration skips, rejects or inserts. *)
Lemma insert_order_outcome s raw : outcome s raw (insert_order s raw).
Proof.
  unfold insert_order.
  destruct (try_order s raw) as [s'|e] eqn:E.
  - by apply try_order_ok.
  - destruct e; constructor.
Qed.

(** The duplicate test comes first: a key of the existing-key set is
    skipped whatever the rest of the record is. *)
Lemma insert_order_existing s raw oid :
  raw_order_id raw = Some oid → oid ∈ existing_ids s →
  insert_order s raw = add_skipped s.
Proof.
  intros Hid Hin. unfold insert_order, try_order. rewrite Hid. simpl.
  by rewrite bool_decide_eq_true_2.
Qed.

(** A record without one of the required keys is rejected, unless its
    [order_id] is in the existing-key set. *)
Lemma insert_order_missing s raw :
  not_existing s raw →
  raw_order_id raw = None ∨ raw_status raw = None ∨
    raw_date raw = None ∨ raw_amount raw = None →
  insert_order s raw = add_error s.
Proof.
  intros Hnew Hmiss. unfold insert_order, try_order.
  destruct (raw_order_id raw) as [oid|] eqn:Eid; [|done]. simpl.
  rewrite bool_decide_eq_false_2 by by apply Hnew.
  destruct (raw_status raw); [|done].
  destruct (raw_date raw); [|done].
  destruct (raw_amount raw); [|done].
  destruct Hmiss as [?|[?|[?|?]]]; discriminate.
Qed.

Lemma get_customer_region_raise customer e :
  get_customer_region customer = Raise e → e = AttributeError.
Proof. destruct customer as [[]|]; simpl; congruence. Qed.

Lemma insert_order_unparsable s raw :
  not_existing s raw → unparsable_date raw →
  insert_order s raw = add_error s.
Proof.
  intros Hnew (v & e & Hv & Hparse). unfold insert_order, try_order.
  destruct (raw_order_id raw) as [oid|] eqn:Eid; [|done]. simpl.
  rewrite bool_decide_eq_false_2 by by apply Hnew.
  destruct (raw_status raw); [|done].
  rewrite Hv. simpl.
  destruct (raw_amount raw); [|done]. simpl.
  destruct (get_customer_region _) as [region|e'] eqn:Ec; simpl.
  - by rewrite Hparse.
  - by rewrite (get_customer_region_raise _ _ Ec).
Qed.

Lemma region_absent_None raw :
  region_absent raw → get_customer_region (raw_customer raw) = Ok JNull.
Proof.
  intros [H | (o & H & Ho)]; rewrite H; [done|]. simpl. by rewrite Ho.
Qed.

Lemma insert_order_no_region s raw :
  not_existing s raw → region_absent raw →
  insert_order s raw = add_error s.
Proof.
  intros Hnew Habs. unfold insert_order, try_order.
  destruct (raw_order_id raw) as [oid|] eqn:Eid; [|done]. simpl.
  rewrite bool_decide_eq_false_2 by by apply Hnew.
  destruct (raw_status raw); [|done].
  destruct (raw_date raw) as [ds|]; [|done].
  destruct (raw_amount raw); [|done]. simpl.
  rewrite (region_absent_None _ Habs). simpl.
  by destruct (parse_date ds).
Qed.

(** A record of the shape of the data model whose key is new is
    inserted. *)
Lemma insert_order_valid s raw oid :
  valid_order raw = true → raw_order_id raw = Some oid →
  oid ∉ existing_ids s → oid ∉ Sqlite.order_ids (rows s) →
  ∃ r, Sqlite.order_id r = oid ∧
       insert_order s raw = add_inserted (rows s ++ [r]) oid s.
Proof.
  unfold valid_order, insert_order, try_order. intros Hv Hid Hnew Hfresh.
  rewrite Hid in *. simpl.
  rewrite bool_decide_eq_false_2 by done.
  destruct (raw_status raw) as [[]|]; try done.
  destruct (raw_date raw) as [[| | | |d| |]|]; try done.
  destruct (raw_amount raw) as [a|]; try done.
  destruct (raw_customer raw) as [[| | | | | |o]|]; try done.
  apply andb_prop in Hv as [Hv Hreg]. apply andb_prop in Hv as [Hd Ha].
  apply bool_decide_eq_true_1 in Hd as [dt Hd].
  simpl. rewrite Hd. unfold has_region in Hreg.
  destruct (o !! "region"%string) as [[| | | |reg| |]|]; try done. simpl.
  unfold Sqlite.insert.
  destruct a as [| |n|f| | |]; try done; simpl in *.
  - rewrite Ha. simpl. rewrite bool_decide_eq_false_2 by done.
    by eexists (Sqlite.Row _ _ _ _ _).
  - destruct (Sqlite.is_nan f); [done|]. simpl.
    rewrite bool_decide_eq_false_2 by done.
    by eexists (Sqlite.Row _ _ _ _ _).
Qed.

(** *** The loop *)

Lemma insert_loop_app s pre post :
  insert_loop s (pre ++ post) = insert_loop (insert_loop s pre) post.
Proof. apply foldl_app. Qed.

(** An induction principle for the states the loop goes through: a
    property of the entry state that every outcome preserves holds after
    any number of records. *)
Lemma insert_loop_ind (P : loop_state → Prop) :
  (∀ s raw s', outcome s raw s' → P s → P s') →
  ∀ orders s, P s → P (insert_loop s orders).
Proof.
  intros Hstep orders. induction orders as [|raw rest IH]; intros s Hs; [done|].
  simpl. apply IH. eapply Hstep; [apply insert_order_outcome | done].
Qed.

Lemma order_ids_snoc t r :
  Sqlite.order_ids (t ++ [r]) = Sqlite.order_ids t ++ [Sqlite.order_id r].
Proof. unfold Sqlite.order_ids. by rewrite fmap_app. Qed.

Lemma outcome_keys_known s raw s' :
  outcome s raw s' → keys_known s → keys_known s'.
Proof.
  intros [| |r _ _ _] Hs; [done..|].
  intros oid. simpl. rewrite order_ids_snoc, elem_of_app, list_elem_of_singleton.
  intros [Hin| ->]; [apply Hs in Hin|]; set_solver.
Qed.

Lemma baseline_keys_known t : keys_known (baseline t).
Proof. intros oid. simpl. by rewrite elem_of_list_to_set. Qed.

Lemma insert_loop_keys_known orders s :
  keys_known s → keys_known (insert_loop s orders).
Proof. apply insert_loop_ind, outcome_keys_known. Qed.

Lemma outcome_one_counted s raw s' : outcome s raw s' → one_counted s s'.
Proof. unfold one_counted. intros [| |r _ _ _]; simpl; lia. Qed.

Lemma insert_loop_counted orders s :
  counted (insert_loop s orders) = counted s + Z.of_nat (length orders) ∧
  inserted s ≤ inserted (insert_loop s orders) ∧
  skipped s ≤ skipped (insert_loop s orders) ∧
  errors s ≤ errors (insert_loop s orders).
Proof.
  revert s. induction orders as [|raw rest IH]; intros s.
  - simpl. lia.
  - specialize (IH (insert_order s raw)).
    pose proof (outcome_one_counted _ _ _ (insert_order_outcome s raw)) as H.
    unfold one_counted, counted in *. simpl length. simpl insert_loop. lia.
Qed.

(** Rows are only appended and keys only added. *)
Lemma outcome_grows s raw s' :
  outcome s raw s' →
  (rows s `prefix_of` rows s') ∧ existing_ids s ⊆ existing_ids s'.
Proof.
  intros [| |r _ _ _]; simpl; (split; [|set_solver]); try done.
  by apply prefix_app_r.
Qed.

Lemma insert_loop_grows orders s :
  (rows s `prefix_of` rows (insert_loop s orders)) ∧
  existing_ids s ⊆ existing_ids (insert_loop s orders).
Proof.
  revert s. induction orders as [|raw rest IH]; intros s; [done|].
  destruct (IH (insert_order s raw)) as [Hr He].
  destruct (outcome_grows _ _ _ (insert_order_outcome s raw)) as [Hr' He'].
  simpl. split; [by etrans | set_solver].
Qed.

(** The counter [inserted] moves only when the key of the record has
    just been added to the table and to the existing-key set. *)
Lemma outcome_inserted_inv s raw s' :
  outcome s raw s' → inserted s' = inserted s + 1 →
  ∃ r, raw_order_id raw = Some (Sqlite.order_id r) ∧
       (Sqlite.order_id r ∉ existing_ids s) ∧
       rows s' = rows s ++ [r] ∧
       existing_ids s' = {[ Sqlite.order_id r ]} ∪ existing_ids s.
Proof. intros [| |r Hid Hnew _]; simpl; [lia..|]. eauto. Qed.

(** The loop on keys that are all in the existing-key set. *)
Lemma insert_loop_all_existing orders s :
  Forall (λ raw, ∃ oid, raw_order_id raw = Some oid ∧ oid ∈ existing_ids s) orders →
  insert_loop s orders =
    {| rows := rows s; existing_ids := existing_ids s; inserted := inserted s;
       skipped := skipped s + Z.of_nat (length orders); errors := errors s |}.
Proof.
  revert s. induction orders as [|raw rest IH]; intros s Hall.
  - destruct s. simpl. f_equal. lia.
  - inversion Hall as [|? ? (oid & Hid & Hin) Hrest]; subst.
    simpl insert_loop. rewrite (insert_order_existing _ _ _ Hid Hin).
    rewrite IH by done. simpl. f_equal. lia.
Qed.

(** The loop on records of the shape of the data model whose keys are
    new and pairwise distinct. *)
Lemma insert_loop_all_new orders s :
  Forall (λ raw, valid_order raw = true) orders →
  NoDup (batch_ids orders) →
  (∀ oid, oid ∈ batch_ids orders → oid ∉ existing_ids s) →
  keys_known s →
  ∃ added,
    Sqlite.order_ids added = batch_ids orders ∧
    insert_loop s orders =
      {| rows := rows s ++ added;
         existing_ids := list_to_set (batch_ids orders) ∪ existing_ids s;
         inserted := inserted s + Z.of_nat (length orders);
         skipped := skipped s; errors := errors s |}.
Proof.
  revert s. induction orders as [|raw rest IH]; intros s Hall Hnd Hnew Hk.
  - exists []. split; [done|]. destruct s. simpl. f_equal.
    + by rewrite app_nil_r.
    + set_solver.
    + lia.
  - inversion Hall as [|? ? Hv Hrest]; subst.
    destruct (raw_order_id raw) as [oid|] eqn:Hid.
    2:{ unfold valid_order in Hv. by rewrite Hid in Hv. }
    unfold batch_ids in Hnd, Hnew. simpl in Hnd, Hnew. rewrite Hid in Hnd, Hnew.
    simpl in Hnd, Hnew. apply NoDup_cons in Hnd as [Hnotin Hnd].
    assert (oid ∉ existing_ids s) as Hoid by (apply Hnew; set_solver).
    destruct (insert_order_valid s raw oid Hv Hid Hoid) as (r & Hr & Hstep).
    { intros Hin. by apply Hoid, Hk. }
    destruct (IH (insert_order s raw) Hrest Hnd) as (added & Hadded & Hloop).
    { rewrite Hstep. simpl. intros oid' Hin'.
      assert (oid' ≠ oid) by (intros ->; done).
      assert (oid' ∉ existing_ids s) by (apply Hnew; set_solver).
      set_solver. }
    { eapply outcome_keys_known; [apply insert_order_outcome | done]. }
    exists (r :: added). split.
    { unfold batch_ids. simpl. rewrite Hid. simpl. by rewrite Hr, Hadded. }
    simpl insert_loop. rewrite Hloop, Hstep. simpl. f_equal.
    + by rewrite <- app_assoc.
    + unfold batch_ids. simpl. rewrite Hid. simpl. set_solver.
    + lia.
Qed.

Lemma insert_orders_opened t orders :
  insert_orders orders (opened t) =
    (Ok (inserted (insert_loop (baseline t) orders),
         skipped (insert_loop (baseline t) orders),
         errors (insert_loop (baseline t) orders)),
     opened (rows (insert_loop (baseline t) orders))).
Proof. reflexivity. Qed.



(** *** Duplicates *)


(** *** Rejected records *)

Lemma insert_order_cases s raw :
  not_existing s raw ∨
  ∃ oid, raw_order_id raw = Some oid ∧ oid ∈ existing_ids s.
Proof.
  unfold not_existing. destruct (raw_order_id raw) as [oid|]; [|by left].
  destruct (decide (oid ∈ existing_ids s)); [right; eauto|].
  left. by intros ? [= <-].
Qed.

(** C2, as the code has it.  A record without [order_id], [status],
    [date] or [amount] moves [errors] by one when its [order_id] is
    absent or is not in the existing-key set; when its [order_id] is in
    the existing-key set it moves [skipped] instead, the duplicate test
    being made before the other keys are read.  No row is written in
    either case. *)
Theorem missing_field_is_rejected s raw :
  raw_order_id raw = None ∨ raw_status raw = None ∨
    raw_date raw = None ∨ raw_amount raw = None →
  (not_existing s raw → insert_order s raw = add_error s) ∧
  (∀ oid, raw_order_id raw = Some oid → oid ∈ existing_ids s →
          insert_order s raw = add_skipped s) ∧
  rows (insert_order s raw) = rows s.
Proof.
  intros Hmiss. split; [|split].
  - intros Hnew. by apply insert_order_missing.
  - apply insert_order_existing.
  - destruct (insert_order_cases s raw) as [Hnew|(oid & Hid & Hin)].
    + by rewrite insert_order_missing.
    + by rewrite (insert_order_existing _ _ oid).
Qed.

(** C4, as the code has it.  A record whose [date] is present and
    cannot be parsed writes no row and adds no key; it moves [errors] by
    one when its [order_id] is absent or is not in the existing-key set,
    whatever its other fields are, and the loop goes on with the
    records after it. *)
Theorem unparsable_date_is_rejected s raw rest :
  unparsable_date raw →
  (not_existing s raw → insert_order s raw = add_error s) ∧
  rows (insert_order s raw) = rows s ∧
  existing_ids (insert_order s raw) = existing_ids s ∧
  inserted (insert_order s raw) = inserted s ∧
  insert_loop s (raw :: rest) = insert_loop (insert_order s raw) rest.
Proof.
  intros Hbad. split; [intros Hnew; by apply insert_order_unparsable|].
  assert (insert_order s raw = add_error s ∨ insert_order s raw = add_skipped s)
    as [E | E]; [|by change (insert_loop s (raw :: rest))
                        with (insert_loop (insert_order s raw) rest); rewrite E..].
  destruct (insert_order_cases s raw) as [Hnew|(oid & Hid & Hin)].
  - left. by apply insert_order_unparsable.
  - right. by apply (insert_order_existing _ _ oid).
Qed.

(** C5, as the code has it.  A record without [customer], or whose
    [customer] has no [region], writes no row and adds no key; it moves
    [errors] by one when its [order_id] is absent or is not in the
    existing-key set; the iteration ends in a loop state in every
    case. *)
Theorem missing_region_is_rejected s raw :
  region_absent raw →
  (not_existing s raw → insert_order s raw = add_error s) ∧
  rows (insert_order s raw) = rows s ∧
  existing_ids (insert_order s raw) = existing_ids s ∧
  inserted (insert_order s raw) = inserted s.
Proof.
  intros Habs. split; [intros Hnew; by apply insert_order_no_region|].
  assert (insert_order s raw = add_error s ∨ insert_order s raw = add_skipped s)
    as [-> | ->]; [|done..].
  destruct (insert_order_cases s raw) as [Hnew|(oid & Hid & Hin)].
  - left. by apply insert_order_no_region.
  - right. by apply (insert_order_existing _ _ oid).
Qed.

(** *** Running a batch twice *)

Lemma rows_of_absent oid t :
  oid ∉ Sqlite.order_ids t → rows_of oid t = [].
Proof.
  unfold rows_of, Sqlite.order_ids. induction t as [|r t IH]; [done|].
  rewrite fmap_cons, not_elem_of_cons. intros [Hne Hnotin].
  rewrite filter_cons_False by done. by apply IH.
Qed.

Lemma rows_of_unique oid t :
  NoDup (Sqlite.order_ids t) → oid ∈ Sqlite.order_ids t →
  length (rows_of oid t) = 1%nat.
Proof.
  unfold Sqlite.order_ids. induction t as [|r t IH]; simpl.
  - intros _ Hin. by apply elem_of_nil in Hin.
  - rewrite NoDup_cons, elem_of_cons. intros [Hnotin Hnd] Hin.
    destruct (decide (Sqlite.order_id r = oid)) as [Heq|Hne].
    + unfold rows_of. rewrite filter_cons_True by done.
      rewrite <- Heq. fold (rows_of (Sqlite.order_id r) t).
      by rewrite rows_of_absent.
    + unfold rows_of. rewrite filter_cons_False by done.
      apply IH; [done|]. by destruct Hin as [->|].
Qed.

Lemma valid_order_has_id raw :
  valid_order raw = true → ∃ oid, raw_order_id raw = Some oid.
Proof. unfold valid_order. destruct (raw_order_id raw); [eauto | done]. Qed.

(** C3, as the code has it.  A batch of [n] records of the shape of the
    data model, whose keys are not in the table and are pairwise
    distinct, returns (n, 0, 0); the same batch on the resulting store
    returns (0, n, 0) and leaves the store as it is; the table then holds
    exactly one row under each key of the batch, and has no two rows
    with the same key if it had none before. *)
Theorem insert_orders_twice t orders :
  Forall (λ raw, valid_order raw = true) orders →
  NoDup (batch_ids orders) →
  (∀ oid, oid ∈ batch_ids orders → oid ∉ Sqlite.order_ids t) →
  ∃ t1,
    insert_orders orders (opened t)
      = (Ok (Z.of_nat (length orders), 0, 0), opened t1) ∧
    insert_orders orders (opened t1)
      = (Ok (0, Z.of_nat (length orders), 0), opened t1) ∧
    (∀ oid, oid ∈ batch_ids orders → length (rows_of oid t1) = 1%nat) ∧
    (NoDup (Sqlite.order_ids t) → NoDup (Sqlite.order_ids t1)).
Proof.
  intros Hvalid Hnd Hnew.
  destruct (insert_loop_all_new orders (baseline t) Hvalid Hnd)
    as (added & Hadded & Hloop).
  { intros oid Hin. simpl. rewrite elem_of_list_to_set. by apply Hnew. }
  { apply baseline_keys_known. }
  exists (t ++ added). split; [|split; [|split]].
  - rewrite insert_orders_opened, Hloop. reflexivity.
  - rewrite insert_orders_opened, insert_loop_all_existing; [reflexivity|].
    apply Forall_forall. intros raw Hraw.
    destruct (valid_order_has_id raw) as [oid Hid].
    { by eapply Forall_forall in Hvalid. }
    exists oid. split; [done|]. simpl. rewrite elem_of_list_to_set.
    unfold Sqlite.order_ids. rewrite fmap_app. apply elem_of_app. right.
    fold (Sqlite.order_ids added). rewrite Hadded.
    unfold batch_ids. apply list_elem_of_omap. eauto.
  - intros oid Hin. unfold rows_of. rewrite filter_app, length_app.
    fold (rows_of oid t). fold (rows_of oid added).
    rewrite rows_of_absent by by apply Hnew.
    apply rows_of_unique; by rewrite Hadded.
  - intros Ht. unfold Sqlite.order_ids. rewrite fmap_app.
    apply NoDup_app. split; [done|]. fold (Sqlite.order_ids added).
    rewrite Hadded. split; [|done].
    intros oid Hin Hin'. by apply (Hnew oid).
Qed.

(** *** The single-record scenario *)

(** C6. On the empty table, the batch of the one record [order_A1]
    returns (1, 0, 0) and leaves the table with the one row [row_A1],
    whose date is the timestamp [fromisoformat] gives for the string of
    the record. *)
Theorem single_order_scenario :
  fromisoformat "2024-01-05T10:00:00" = Some (DateTime 2024 1 5 10 0 0 0 None) →
  insert_orders [order_A1] (opened []) = (Ok (1, 0, 0), opened [row_A1]).
Proof.
  intros Hdate. rewrite insert_orders_opened.
  unfold insert_loop, baseline. simpl foldl.
  unfold insert_order, try_order. simpl.
  rewrite bool_decide_eq_false_2 by set_solver.
  rewrite Hdate. reflexivity.
Qed.

(** *** The existing-key set *)

(** C7. When the baseline query succeeds, the existing-key set is the
    set of the keys of the table on entry to the loop; after any number
    of records it contains every key of the table; and a record that
    moves [inserted] has appended one row and added the key of that row
    to the set within the same iteration. *)
Theorem existing_ids_superset db ids pre :
  get_existing_order_ids db = Ok ids →
  let s := insert_loop (loop_entry (default [] (orders_table db)) ids) pre in
  ids = list_to_set (Sqlite.order_ids (default [] (orders_table db))) ∧
  list_to_set (Sqlite.order_ids (rows s)) ⊆ existing_ids s ∧
  ∀ raw,
    inserted (insert_order s raw) = inserted s + 1 →
    ∃ r, raw_order_id raw = Some (Sqlite.order_id r) ∧
         rows (insert_order s raw) = rows s ++ [r] ∧
         existing_ids (insert_order s raw) = {[ Sqlite.order_id r ]} ∪ existing_ids s.
Proof.
  intros Hids s. unfold get_existing_order_ids in Hids.
  destruct (cursor db); [|discriminate]. simpl in Hids.
  destruct (orders_table db) as [t|]; [|discriminate].
  injection Hids as <-. split; [done|]. split.
  - intros oid. rewrite elem_of_list_to_set.
    apply (insert_loop_keys_known pre (baseline t)), baseline_keys_known.
  - intros raw Hins.
    destruct (outcome_inserted_inv _ _ _ (insert_order_outcome s raw) Hins)
      as (r & Hr & _ & Hrows & Hex).
    eauto.
Qed.

(** *** The counters *)

(** C9. Each iteration moves exactly one of the three counters, by one;
    when the baseline query succeeds [insert_orders] returns a triple of
    non-negative counters whose sum is the number of records, and it
    raises only the exception of the baseline query. *)
Theorem counters_sum_to_length orders db :
  (∀ s raw, one_counted s (insert_order s raw)) ∧
  match fst (insert_orders orders db) with
  | Ok (i, k, e) =>
      i + k + e = Z.of_nat (length orders) ∧ 0 ≤ i ∧ 0 ≤ k ∧ 0 ≤ e
  | Raise e => get_existing_order_ids db = Raise e
  end.
Proof.
  split.
  - intros s raw. apply outcome_one_counted with raw, insert_order_outcome.
  - unfold insert_orders.
    destruct (get_existing_order_ids db) as [ids|e]; [|done]. simpl.
    pose proof (insert_loop_counted orders
                  (loop_entry (default [] (orders_table db)) ids)) as H.
    unfold counted in H. simpl in H. lia.
Qed.

(** *** The INSERT statement *)

Lemma sqlite_insert_ok t oid st dt am region t' :
  Sqlite.insert t oid st dt am region = Ok t' ↔
  ∃ r, t' = t ++ [r] ∧ Sqlite.order_id r = oid ∧ Sqlite.date r = dt ∧
       Sqlite.bind_parameter st = Ok (Sqlite.status r) ∧
       Sqlite.bind_parameter am = Ok (Sqlite.amount r) ∧
       Sqlite.bind_parameter region = Ok (Sqlite.customer_region r) ∧
       row_complete r = true ∧ oid ∉ Sqlite.order_ids t.
Proof.
  unfold Sqlite.insert, row_complete. split.
  - intros H.
    apply bind_ok in H as (st' & Hst & H).
    apply bind_ok in H as (am' & Ham & H).
    apply bind_ok in H as (region' & Hreg & H).
    destruct (Sqlite.is_null st') eqn:E1; [discriminate|].
    destruct (Sqlite.is_null am') eqn:E2; [discriminate|].
    destruct (Sqlite.is_null region') eqn:E3; [discriminate|]. simpl in H.
    case_bool_decide; [discriminate|]. injection H as <-.
    eexists (Sqlite.Row _ _ _ _ _). simpl. rewrite E1, E2, E3. done.
  - intros ([oid' st' dt' am' region'] & -> & Hoid & Hdt & -> & -> & -> & Hc & Hnew).
    simpl in *. subst. apply andb_prop in Hc as [Hc Hc3].
    apply andb_prop in Hc as [Hc1 Hc2].
    apply negb_true_iff in Hc1, Hc2, Hc3. rewrite Hc1, Hc2, Hc3. simpl.
    by rewrite bool_decide_eq_false_2.
Qed.

Lemma bind_parameter_raise v e :
  Sqlite.bind_parameter v = Raise e → e = OverflowError ∨ e = ProgrammingError.
Proof.
  destruct v as [| |n| | | |]; simpl; try discriminate; try (intros [= <-]; auto).
  destruct (Sqlite.int64 n); [discriminate|]. intros [= <-]. auto.
Qed.

(** *** What an iteration does with a record that gets to the INSERT *)

Lemma reaches_insert_step s raw oid st dt am region :
  reaches_insert s raw oid st dt am region →
  insert_order s raw =
    match Sqlite.insert (rows s) oid st dt am region with
    | Ok t => add_inserted t oid s
    | Raise e => handle s e
    end.
Proof.
  intros (Hid & Hnew & Hst & (d & Hd & Hdt) & Ham & Hreg & Hnn).
  unfold insert_order, try_order. rewrite Hid. simpl.
  rewrite bool_decide_eq_false_2 by done.
  rewrite Hst, Hd, Ham. simpl. rewrite Hreg. simpl. rewrite Hdt.
  destruct region; try done;
    by destruct (Sqlite.insert _ _ _ _ _ _).
Qed.

Lemma inserted_reaches s raw :
  inserted (insert_order s raw) = inserted s + 1 →
  ∃ oid st dt am region t,
    reaches_insert s raw oid st dt am region ∧
    Sqlite.insert (rows s) oid st dt am region = Ok t.
Proof.
  unfold insert_order, try_order, reaches_insert.
  destruct (raw_order_id raw) as [oid|]; simpl; [|lia].
  case_bool_decide as Hin; simpl; [lia|].
  destruct (raw_status raw) as [st|]; simpl; [|lia].
  destruct (raw_date raw) as [ds|]; simpl; [|lia].
  destruct (raw_amount raw) as [am|]; simpl; [|lia].
  destruct (get_customer_region (raw_customer raw)) as [region|e]; simpl.
  2:{ destruct e; simpl; lia. }
  destruct ds as [| | | |d| |]; simpl; try lia.
  destruct (fromisoformat d) as [dt|] eqn:Hd; simpl; [|lia].
  destruct (Sqlite.insert (rows s) oid st dt am region) as [t|e] eqn:Hins.
  - destruct region; simpl; try lia;
      intros _; eexists _, _, _, _, _, _; (repeat split; [..|exact Hins]); eauto.
  - destruct region; simpl; try lia; destruct e; simpl; lia.
Qed.

Lemma reaches_insert_region s raw oid st dt am region :
  reaches_insert s raw oid st dt am region →
  ∃ o, raw_customer raw = Some (JObj o) ∧ o !! "region"%string = Some region.
Proof.
  intros (_ & _ & _ & _ & _ & Hreg & Hnn).
  destruct (raw_customer raw) as [[| | | | | |o]|]; simpl in Hreg; try discriminate.
  - exists o. split; [done|]. injection Hreg as <-.
    destruct (o !! "region"%string); [done|]. by destruct Hnn.
  - injection Hreg as <-. by destruct Hnn.
Qed.

(** An iteration that moves [inserted] has appended a complete row that
    holds the fields of the record, under a key that was new. *)
Lemma insert_order_inserted_row s raw :
  inserted (insert_order s raw) = inserted s + 1 →
  ∃ r, insert_order s raw = add_inserted (rows s ++ [r]) (Sqlite.order_id r) s ∧
       row_of_order raw r ∧ row_complete r = true ∧
       (Sqlite.order_id r ∉ existing_ids s) ∧
       (Sqlite.order_id r ∉ Sqlite.order_ids (rows s)).
Proof.
  intros Hins.
  destruct (inserted_reaches s raw Hins) as (oid & st & dt & am & region & t & Hr & Ht).
  rewrite (reaches_insert_step _ _ _ _ _ _ _ Hr), Ht.
  destruct (reaches_insert_region _ _ _ _ _ _ _ Hr) as (o & Ho & Hregion).
  destruct Hr as (Hid & Hnew & Hst & (d & Hd & Hdt) & Ham & _ & _).
  apply sqlite_insert_ok in Ht
    as (r & -> & <- & <- & Hbst & Hbam & Hbreg & Hc & Hfresh).
  exists r. repeat split; eauto 10.
Qed.

(** Conversely, a record whose fields make a complete row under a new key
    is inserted, as that row. *)
Lemma insert_order_row s raw r :
  row_of_order raw r → row_complete r = true →
  Sqlite.order_id r ∉ existing_ids s →
  Sqlite.order_id r ∉ Sqlite.order_ids (rows s) →
  insert_order s raw = add_inserted (rows s ++ [r]) (Sqlite.order_id r) s.
Proof.
  intros (Hid & (st & Hst & Hbst) & (d & Hd & Hdt) & (am & Ham & Hbam) &
          (o & region & Ho & Hregion & Hbreg)) Hc Hnew Hfresh.
  assert (region ≠ JNull) as Hnn.
  { intros ->. simpl in Hbreg. injection Hbreg as Hnull.
    unfold row_complete in Hc. rewrite <- Hnull in Hc. simpl in Hc.
    by rewrite andb_false_r in Hc. }
  rewrite (reaches_insert_step s raw (Sqlite.order_id r) st (Sqlite.date r) am region).
  2:{ repeat split; eauto. rewrite Ho. simpl. by rewrite Hregion. }
  assert (Sqlite.insert (rows s) (Sqlite.order_id r) st (Sqlite.date r) am region
          = Ok (rows s ++ [r])) as ->; [|done].
  apply sqlite_insert_ok. exists r. by repeat split.
Qed.

(** *** Further outcomes of one iteration *)

(** X1. With every key of the table in the existing-key set, a record is
    inserted exactly when its fields make a complete row (all four
    required keys present, a date that parses, a region, three values
    that bind and are not NULL) and its key is not in the set. *)
Theorem inserted_exactly_when s raw :
  keys_known s →
  inserted (insert_order s raw) = inserted s + 1 ↔
  ∃ r, row_of_order raw r ∧ row_complete r = true ∧
       Sqlite.order_id r ∉ existing_ids s.
Proof.
  intros Hk. split.
  - intros Hins.
    destruct (insert_order_inserted_row s raw Hins) as (r & _ & Hr & Hc & Hnew & _).
    eauto.
  - intros (r & Hr & Hc & Hnew).
    rewrite (insert_order_row s raw r Hr Hc Hnew); [done|].
    intros Hin. by apply Hnew, Hk.
Qed.

(** X2. A record that gets to the INSERT with three values that bind, one
    of which is stored as NULL (a [null], or a NaN), or under a key that
    is in the table, violates a constraint: it is counted as skipped and
    nothing is written. *)
Theorem constraint_violation_is_skipped s raw oid st dt am region st' am' region' :
  reaches_insert s raw oid st dt am region →
  Sqlite.bind_parameter st = Ok st' →
  Sqlite.bind_parameter am = Ok am' →
  Sqlite.bind_parameter region = Ok region' →
  Sqlite.is_null st' || Sqlite.is_null am' || Sqlite.is_null region' = true ∨
    oid ∈ Sqlite.order_ids (rows s) →
  insert_order s raw = add_skipped s.
Proof.
  intros Hr Hst Ham Hreg Hv.
  rewrite (reaches_insert_step _ _ _ _ _ _ _ Hr).
  unfold Sqlite.insert. rewrite Hst, Ham, Hreg. simpl.
  destruct (_ || _); [done|].
  destruct Hv as [|Hin]; [done|]. by rewrite bool_decide_eq_true_2.
Qed.

(** X3. A record that gets to the INSERT with a status, an amount or a
    region that cannot be bound (a list, a dict, an integer beyond 64
    bits) is counted as an error, also when another of its values is
    [null]. *)
Theorem unbindable_value_is_rejected s raw oid st dt am region e :
  reaches_insert s raw oid st dt am region →
  Sqlite.bind_parameter st = Raise e ∨ Sqlite.bind_parameter am = Raise e ∨
    Sqlite.bind_parameter region = Raise e →
  insert_order s raw = add_error s.
Proof.
  intros Hr Hb. rewrite (reaches_insert_step _ _ _ _ _ _ _ Hr).
  assert (∃ e', Sqlite.insert (rows s) oid st dt am region = Raise e' ∧
                (e' = OverflowError ∨ e' = ProgrammingError)) as (e' & -> & He').
  { unfold Sqlite.insert.
    destruct (Sqlite.bind_parameter st) as [st'|e1] eqn:E1; simpl.
    2:{ exists e1. split; [done|]. by eapply bind_parameter_raise. }
    destruct (Sqlite.bind_parameter am) as [am'|e2] eqn:E2; simpl.
    2:{ exists e2. split; [done|]. by eapply bind_parameter_raise. }
    destruct (Sqlite.bind_parameter region) as [region'|e3] eqn:E3; simpl.
    2:{ exists e3. split; [done|]. by eapply bind_parameter_raise. }
    destruct Hb as [?|[?|?]]; discriminate. }
  by destruct He' as [-> | ->].
Qed.

(** X4. A record whose [customer] is present and is no mapping, or whose
    [region] is [null], is counted as an error and writes nothing, unless
    its [order_id] is in the existing-key set. *)
Theorem unusable_region_is_rejected s raw :
  not_existing s raw → region_unusable raw →
  insert_order s raw = add_error s.
Proof.
  intros Hnew Hbad. unfold insert_order, try_order.
  destruct (raw_order_id raw) as [oid|] eqn:Eid; [|done]. simpl.
  rewrite bool_decide_eq_false_2 by by apply Hnew.
  destruct (raw_status raw); [|done].
  destruct (raw_date raw) as [ds|]; [|done].
  destruct (raw_amount raw); [|done]. simpl.
  destruct Hbad as [(c & -> & Hc) | (o & -> & Ho)]; simpl.
  - destruct c; try done. by destruct (Hc o).
  - rewrite Ho. simpl. by destruct (parse_date ds).
Qed.

(** *** Further invariants of the loop *)

Lemma outcome_keys_stored s raw s' :
  outcome s raw s' → keys_stored s → keys_stored s'.
Proof.
  intros [| |r _ _ _] Hs; [done..|].
  intros oid. simpl. rewrite order_ids_snoc, elem_of_app, list_elem_of_singleton.
  rewrite elem_of_union, elem_of_singleton. intros [->|Hin]; [by right|].
  left. by apply Hs.
Qed.

Lemma baseline_keys_stored t : keys_stored (baseline t).
Proof. intros oid. simpl. by rewrite elem_of_list_to_set. Qed.

Lemma not_inserted s raw :
  inserted (insert_order s raw) ≠ inserted s + 1 →
  insert_order s raw = add_skipped s ∨ insert_order s raw = add_error s.
Proof.
  destruct (insert_order_outcome s raw) as [| |r _ _ _]; simpl; auto. lia.
Qed.

(** The rows a run of the loop appends. *)
Lemma insert_loop_added orders s :
  ∃ added,
    rows (insert_loop s orders) = rows s ++ added ∧
    existing_ids (insert_loop s orders)
      = list_to_set (Sqlite.order_ids added) ∪ existing_ids s ∧
    inserted (insert_loop s orders) = inserted s + Z.of_nat (length added) ∧
    Sqlite.order_ids added `sublist_of` batch_ids orders ∧
    Forall (λ r, row_complete r = true ∧ ∃ raw, raw ∈ orders ∧ row_of_order raw r) added.
Proof.
  revert s. induction orders as [|raw rest IH]; intros s.
  { exists []. simpl. rewrite app_nil_r. repeat split; [set_solver|lia|done|done]. }
  destruct (IH (insert_order s raw)) as (added & Hrows & Hex & Hins & Hsub & Hall).
  assert (Forall (λ r, row_complete r = true ∧
                       ∃ raw', raw' ∈ raw :: rest ∧ row_of_order raw' r) added) as Hall'.
  { eapply Forall_impl; [exact Hall|]. intros r [Hc (raw' & Hin & Hr)].
    split; [done|]. exists raw'. split; [by right | done]. }
  destruct (decide (inserted (insert_order s raw) = inserted s + 1)) as [Hyes|Hno].
  - destruct (insert_order_inserted_row s raw Hyes) as (r & Hstep & Hr & Hc & _ & _).
    exists (r :: added). simpl insert_loop.
    rewrite Hrows, Hex, Hins, Hstep. simpl.
    repeat split.
    + by rewrite <- app_assoc.
    + set_solver.
    + lia.
    + unfold batch_ids. simpl. destruct Hr as [-> _]. simpl. by constructor.
    + constructor; [|done]. split; [done|]. exists raw. split; [by left | done].
  - exists added. simpl insert_loop. rewrite Hrows, Hex, Hins.
    assert (rows (insert_order s raw) = rows s ∧
            existing_ids (insert_order s raw) = existing_ids s ∧
            inserted (insert_order s raw) = inserted s) as (-> & -> & ->).
    { by destruct (not_inserted s raw Hno) as [-> | ->]. }
    repeat split; [|done].
    unfold batch_ids. simpl. destruct (raw_order_id raw); [|done].
    by apply sublist_cons.
Qed.

Lemma insert_orders_ok orders db c db' :
  insert_orders orders db = (Ok c, db') →
  ∃ t, orders_table db = Some t ∧ conn db = Some Open ∧
       c = (inserted (insert_loop (baseline t) orders),
            skipped (insert_loop (baseline t) orders),
            errors (insert_loop (baseline t) orders)) ∧
       db' = {| conn := conn db;
                orders_table := Some (rows (insert_loop (baseline t) orders)) |}.
Proof.
  unfold insert_orders, get_existing_order_ids, cursor.
  destruct (conn db) as [[]|] eqn:Hc; simpl; try discriminate.
  destruct (orders_table db) as [t|]; simpl; [|discriminate].
  intros [= <- <-]. eauto.
Qed.

(** X5. [insert_orders] only appends: when it returns, the table it
    leaves starts with the rows of the table it found, unchanged and in
    their order; the connection is as it was; and [inserted] is the number
    of rows appended. *)
Theorem insert_orders_appends orders db i k e db' :
  insert_orders orders db = (Ok (i, k, e), db') →
  ∃ t added,
    orders_table db = Some t ∧ orders_table db' = Some (t ++ added) ∧
    conn db' = conn db ∧ i = Z.of_nat (length added).
Proof.
  intros H. apply insert_orders_ok in H as (t & Ht & _ & [= -> -> ->] & ->).
  destruct (insert_loop_added orders (baseline t)) as (added & Hrows & _ & Hins & _).
  exists t, added. simpl in *. rewrite Hrows. repeat split; [done|lia].
Qed.


(** X7. The rows are appended in the order of the batch: their keys are
    a subsequence of the [order_id]s of the records. *)
Theorem appended_rows_keep_order orders db c db' t :
  insert_orders orders db = (Ok c, db') → orders_table db = Some t →
  ∃ added,
    orders_table db' = Some (t ++ added) ∧
    Sqlite.order_ids added `sublist_of` batch_ids orders.
Proof.
  intros H Ht. apply insert_orders_ok in H as (t' & Ht' & _ & _ & ->).
  rewrite Ht in Ht'. injection Ht' as <-.
  destruct (insert_loop_added orders (baseline t)) as (added & Hrows & _ & _ & Hsub & _).
  exists added. simpl. by rewrite Hrows.
Qed.

Lemma insert_loop_NoDup orders s :
  keys_known s → NoDup (Sqlite.order_ids (rows s)) →
  NoDup (Sqlite.order_ids (rows (insert_loop s orders))).
Proof.
  intros Hk Hnd.
  enough (keys_known (insert_loop s orders) ∧
          NoDup (Sqlite.order_ids (rows (insert_loop s orders)))) as [_ H] by done.
  apply (insert_loop_ind (λ s', keys_known s' ∧ NoDup (Sqlite.order_ids (rows s'))));
    [|done].
  intros s1 raw s2 Hout [Hk1 Hnd1]. split; [by eapply outcome_keys_known|].
  destruct Hout as [| |r _ _ Hfresh]; [done..|]. simpl.
  rewrite order_ids_snoc. apply NoDup_app. split; [done|]. split.
  - intros oid Hin ->%list_elem_of_singleton. done.
  - apply NoDup_singleton.
Qed.

(** X8. [insert_orders] keeps the primary key: a table without two rows
    under one key is left without two rows under one key, whatever the
    batch is. *)
Theorem insert_orders_keeps_primary_key orders db c db' t t' :
  insert_orders orders db = (Ok c, db') →
  orders_table db = Some t → orders_table db' = Some t' →
  NoDup (Sqlite.order_ids t) → NoDup (Sqlite.order_ids t').
Proof.
  intros H Ht Ht' Hnd. apply insert_orders_ok in H as (t0 & Ht0 & _ & _ & ->).
  rewrite Ht in Ht0. injection Ht0 as <-. simpl in Ht'. injection Ht' as <-.
  apply insert_loop_NoDup; [apply baseline_keys_known | done].
Qed.

(** X9. The existing-key set holds no key that is not in the table: with
    C7, at the head of every iteration it is exactly the set of the keys
    of the table. *)
Theorem existing_ids_are_stored t pre :
  existing_ids (insert_loop (baseline t) pre)
  = list_to_set (Sqlite.order_ids (rows (insert_loop (baseline t) pre))).
Proof.
  apply set_eq. intros oid. rewrite elem_of_list_to_set. split.
  - apply (insert_loop_ind keys_stored); [apply outcome_keys_stored|].
    apply baseline_keys_stored.
  - apply insert_loop_keys_known, baseline_keys_known.
Qed.

(** *** Batches and runs *)

(** What an iteration does depends on the table and on the existing-key
    set, not on the counters. *)
Lemma insert_order_effect s s' raw :
  same_store s s' →
  ∃ f, insert_order s raw = apply_effect f s ∧ insert_order s' raw = apply_effect f s'.
Proof.
  intros [Hrows Hex]. destruct s as [t ex i k e], s' as [t' ex' i' k' e'].
  simpl in *. subst t' ex'. unfold insert_order, try_order. simpl.
  destruct (raw_order_id raw) as [oid|]; simpl; [|by exists Rejects].
  case_bool_decide; simpl; [by exists Skips|].
  destruct (raw_status raw) as [st|]; simpl; [|by exists Rejects].
  destruct (raw_date raw) as [ds|]; simpl; [|by exists Rejects].
  destruct (raw_amount raw) as [am|]; simpl; [|by exists Rejects].
  destruct (get_customer_region _) as [region|e0] eqn:Ec; simpl.
  2:{ rewrite (get_customer_region_raise _ _ Ec). by exists Rejects. }
  destruct (parse_date ds) as [dt|?]; simpl; [|by exists Rejects].
  destruct (Sqlite.insert t oid st dt am region) as [t1|e1] eqn:Hins.
  - apply insert_ok in Hins as (r & -> & <- & _).
    destruct region; simpl; first [by exists Rejects | by exists (Inserts r)].
  - destruct region; simpl; destruct e1; simpl;
      first [by exists Rejects | by exists Skips].
Qed.

Lemma apply_effect_same_store f s s' :
  same_store s s' →
  same_store (apply_effect f s) (apply_effect f s') ∧
  inserted (apply_effect f s) - inserted s = inserted (apply_effect f s') - inserted s' ∧
  skipped (apply_effect f s) - skipped s = skipped (apply_effect f s') - skipped s' ∧
  errors (apply_effect f s) - errors s = errors (apply_effect f s') - errors s'.
Proof.
  intros [Hrows Hex]. unfold same_store.
  destruct f; simpl; rewrite ?Hrows, ?Hex; repeat split; lia.
Qed.

(** Two runs of the loop from states with the same table and the same
    set end with the same table and the same set, and move the counters
    by the same amounts. *)
Lemma insert_loop_same_store orders s s' :
  same_store s s' →
  same_store (insert_loop s orders) (insert_loop s' orders) ∧
  inserted (insert_loop s orders) - inserted s
    = inserted (insert_loop s' orders) - inserted s' ∧
  skipped (insert_loop s orders) - skipped s
    = skipped (insert_loop s' orders) - skipped s' ∧
  errors (insert_loop s orders) - errors s
    = errors (insert_loop s' orders) - errors s'.
Proof.
  revert s s'. induction orders as [|raw rest IH]; intros s s' Hs.
  { simpl. repeat split; try lia; apply Hs. }
  destruct (insert_order_effect s s' raw Hs) as (f & E & E').
  destruct (apply_effect_same_store f s s' Hs) as (Hs1 & Hi & Hk & He).
  rewrite <- E, <- E' in Hs1, Hi, Hk, He.
  destruct (IH _ _ Hs1) as (Hs2 & Hi2 & Hk2 & He2).
  simpl insert_loop. repeat split; try apply Hs2; lia.
Qed.

Lemma baseline_same_store t pre :
  same_store (baseline (rows (insert_loop (baseline t) pre)))
             (insert_loop (baseline t) pre).
Proof.
  split; [done|]. simpl. apply set_eq. intros oid.
  rewrite elem_of_list_to_set. split.
  - apply insert_loop_keys_known, baseline_keys_known.
  - apply (insert_loop_ind keys_stored); [apply outcome_keys_stored|].
    apply baseline_keys_stored.
Qed.

(** X10. Splitting a batch: one call on [first ++ second] leaves the same
    store and returns the sums of the counters of a call on [first]
    followed by a call on [second]. *)
Theorem insert_orders_split t first second :
  ∃ i1 k1 e1 i2 k2 e2 db1 db2,
    insert_orders first (opened t) = (Ok (i1, k1, e1), db1) ∧
    insert_orders second db1 = (Ok (i2, k2, e2), db2) ∧
    insert_orders (first ++ second) (opened t)
      = (Ok (i1 + i2, k1 + k2, e1 + e2), db2).
Proof.
  eexists _, _, _, _, _, _, _, _.
  split; [apply insert_orders_opened|].
  split; [apply insert_orders_opened|].
  rewrite insert_orders_opened, insert_loop_app.
  destruct (insert_loop_same_store second _ _ (baseline_same_store t first))
    as ([Hrows _] & Hi & Hk & He).
  simpl in Hi, Hk, He. rewrite Hrows. do 2 f_equal. f_equal; [f_equal|]; lia.
Qed.

(** A record that is not inserted leaves the table and the set as they
    are. *)
Lemma not_inserted_same_store s raw :
  inserted (insert_order s raw) = inserted s →
  same_store (insert_order s raw) s.
Proof.
  intros H. destruct (not_inserted s raw) as [-> | ->]; [lia|done..].
Qed.

(** X11. A record that is skipped or rejected has no effect on the
    others: the batch without it leaves the same table and inserts as
    many rows. *)
Theorem rejected_record_is_isolated t pre raw post :
  inserted (insert_order (insert_loop (baseline t) pre) raw)
    = inserted (insert_loop (baseline t) pre) →
  snd (insert_orders (pre ++ raw :: post) (opened t))
    = snd (insert_orders (pre ++ post) (opened t)) ∧
  inserted (insert_loop (baseline t) (pre ++ raw :: post))
    = inserted (insert_loop (baseline t) (pre ++ post)).
Proof.
  intros H. rewrite !insert_orders_opened, !insert_loop_app. simpl.
  destruct (insert_loop_same_store post _ _ (not_inserted_same_store _ _ H))
    as ([Hrows _] & Hi & _). rewrite Hrows. split; [done|]. lia.
Qed.

(** After a run of the loop, the key of every record of the batch whose
    fields make a complete row is in the existing-key set. *)
Lemma insert_loop_covers orders s raw r :
  keys_known s → raw ∈ orders → row_of_order raw r → row_complete r = true →
  Sqlite.order_id r ∈ existing_ids (insert_loop s orders).
Proof.
  revert s. induction orders as [|raw' rest IH]; intros s Hk Hin Hr Hc.
  { by apply elem_of_nil in Hin. }
  apply elem_of_cons in Hin as [<- | Hin].
  - simpl. apply (insert_loop_grows rest).
    destruct (decide (Sqlite.order_id r ∈ existing_ids s)) as [Hex|Hnew].
    + by apply (outcome_grows _ _ _ (insert_order_outcome s raw)).
    + rewrite (insert_order_row s raw r Hr Hc Hnew).
      * simpl. set_solver.
      * intros Hrow. by apply Hnew, Hk.
  - simpl. apply IH; [|done..].
    eapply outcome_keys_known; [apply insert_order_outcome | done].
Qed.

(** A run of the loop on records whose complete rows all have their key
    in the existing-key set inserts nothing. *)
Lemma insert_loop_nothing_new orders s :
  (∀ raw r, raw ∈ orders → row_of_order raw r → row_complete r = true →
            Sqlite.order_id r ∈ existing_ids s) →
  same_store (insert_loop s orders) s ∧
  inserted (insert_loop s orders) = inserted s.
Proof.
  revert s. induction orders as [|raw rest IH]; intros s Hall; [done|].
  assert (inserted (insert_order s raw) = inserted s) as Hno.
  { destruct (decide (inserted (insert_order s raw) = inserted s + 1)) as [Hyes|Hno].
    - destruct (insert_order_inserted_row s raw Hyes) as (r & _ & Hr & Hc & Hnew & _).
      destruct Hnew. apply (Hall raw r); [by left | done..].
    - by destruct (not_inserted s raw Hno) as [-> | ->]. }
  destruct (not_inserted_same_store s raw Hno) as [Hrows Hex].
  destruct (IH (insert_order s raw)) as ([Hrows' Hex'] & Hins).
  { intros raw' r Hin Hr Hc. rewrite Hex. apply (Hall raw' r); [by right | done..]. }
  simpl insert_loop. split; [split|]; congruence.
Qed.

Lemma insert_loop_second_run t orders :
  rows (insert_loop (baseline (rows (insert_loop (baseline t) orders))) orders)
    = rows (insert_loop (baseline t) orders) ∧
  inserted (insert_loop (baseline (rows (insert_loop (baseline t) orders))) orders) = 0.
Proof.
  set (t1 := rows (insert_loop (baseline t) orders)).
  destruct (insert_loop_nothing_new orders (baseline t1)) as ([Hrows _] & Hins); [|done].
  intros raw r Hin Hr Hc. simpl. rewrite elem_of_list_to_set.
  apply (insert_loop_ind keys_stored); [apply outcome_keys_stored| |].
  - apply baseline_keys_stored.
  - apply insert_loop_covers with raw; [apply baseline_keys_known|done..].
Qed.

(** X12. Running any batch a second time inserts nothing and leaves the
    store as the first run left it; every record is then skipped or
    rejected. *)
Theorem insert_orders_second_run t orders :
  ∃ c1 t1 k2 e2,
    insert_orders orders (opened t) = (Ok c1, opened t1) ∧
    insert_orders orders (opened t1) = (Ok (0, k2, e2), opened t1) ∧
    k2 + e2 = Z.of_nat (length orders).
Proof.
  eexists _, _, _, _. split; [apply insert_orders_opened|].
  rewrite insert_orders_opened.
  destruct (insert_loop_second_run t orders) as [Hrows Hins].
  destruct (insert_loop_counted orders
              (baseline (rows (insert_loop (baseline t) orders)))) as (Hsum & _).
  unfold counted in Hsum. rewrite Hins in Hsum. simpl in Hsum.
  rewrite Hrows, Hins. split; [reflexivity|]. lia.
Qed.

(** *** Failures of the baseline query *)

(** X13. [insert_orders] raises [AttributeError] on an object without a
    connection, [ProgrammingError] on a closed connection and
    [OperationalError] when the table does not exist.  Whenever it raises
    it has processed no record: the object and the table are as they
    were. *)
Theorem insert_orders_raises orders db :
  (∀ e db', insert_orders orders db = (Raise e, db') → db' = db) ∧
  (conn db = None → insert_orders orders db = (Raise AttributeError, db)) ∧
  (conn db = Some Closed → insert_orders orders db = (Raise ProgrammingError, db)) ∧
  (conn db = Some Open → orders_table db = None →
   insert_orders orders db = (Raise OperationalError, db)).
Proof.
  unfold insert_orders, get_existing_order_ids, cursor.
  destruct (conn db) as [[]|]; simpl.
  - destruct (orders_table db) as [t|]; simpl.
    + repeat split; discriminate.
    + repeat split; try discriminate; try done. by intros ? ? [= <- <-].
  - repeat split; try discriminate; try done. by intros ? ? [= <- <-].
  - repeat split; try discriminate; try done. by intros ? ? [= <- <-].
Qed.

(** *** main *)

Lemma main_loaded json_load fs can_open file data orders :
  load_json json_load fs "orders-1.json" = Ok data →
  orders_of_json data = Some orders →
  main json_load fs can_open file =
    Some (if can_open
          then finally None
                 (Some (inserted (insert_loop (baseline (default [] file)) orders),
                        skipped (insert_loop (baseline (default [] file)) orders),
                        errors (insert_loop (baseline (default [] file)) orders)))
                 (opened (rows (insert_loop (baseline (default [] file)) orders)))
          else finally (Some OperationalError) None (init file)).
Proof.
  intros Hload Horders. unfold main. rewrite Hload, Horders.
  by destruct can_open.
Qed.

Lemma main_inv json_load fs can_open file r :
  main json_load fs can_open file = Some r →
  (∃ e, load_json json_load fs "orders-1.json" = Raise e ∧
        r = {| raised := Some e; summary := None; database := None |}) ∨
  (∃ data orders,
     load_json json_load fs "orders-1.json" = Ok data ∧
     orders_of_json data = Some orders ∧
     r = if can_open
         then finally None
                (Some (inserted (insert_loop (baseline (default [] file)) orders),
                       skipped (insert_loop (baseline (default [] file)) orders),
                       errors (insert_loop (baseline (default [] file)) orders)))
                (opened (rows (insert_loop (baseline (default [] file)) orders)))
         else finally (Some OperationalError) None (init file)).
Proof.
  intros H.
  destruct (load_json json_load fs "orders-1.json") as [data|e] eqn:Hload.
  - destruct (orders_of_json data) as [orders|] eqn:Horders.
    + right. exists data, orders. rewrite (main_loaded _ _ _ _ _ _ Hload Horders) in H.
      by injection H as <-.
    + unfold main in H. rewrite Hload, Horders in H. discriminate.
  - left. exists e. unfold main in H. rewrite Hload in H. by injection H as <-.
Qed.

(** X14. [main] never leaves the connection open: whenever it made the
    [OrdersDatabase] object, the connection of that object is closed, or
    was never made, when [main] ends, with or without an exception. *)
Theorem main_releases_connection json_load fs can_open file r db :
  main json_load fs can_open file = Some r →
  database r = Some db →
  conn db = Some Closed ∨ (conn db = None ∧ can_open = false).
Proof.
  intros H Hdb.
  apply main_inv in H as [(e & _ & ->) | (data & orders & _ & _ & ->)];
    [discriminate|].
  destruct can_open; simpl in Hdb; injection Hdb as <-; auto.
Qed.

(** X15. When [main] ends with an exception it writes no summary and
    leaves the table as it was; if it made no [OrdersDatabase] object the
    exception is that of [load_json], which raised before anything else
    was done.  [main] ends without an exception only if [load_json]
    returned and the connection was opened. *)
Theorem main_failure json_load fs can_open file r :
  main json_load fs can_open file = Some r →
  match raised r with
  | Some e =>
      summary r = None ∧
      match database r with
      | None => load_json json_load fs "orders-1.json" = Raise e
      | Some db =>
          orders_table db = file ∧
          ∃ data, load_json json_load fs "orders-1.json" = Ok data
      end
  | None =>
      can_open = true ∧ ∃ data, load_json json_load fs "orders-1.json" = Ok data
  end.
Proof.
  intros H.
  apply main_inv in H as [(e & Hload & ->) | (data & orders & Hload & _ & ->)].
  - simpl. auto.
  - destruct can_open; simpl; eauto 10.
Qed.


(** X17. Running [main] again on the file it left, with the same
    document, inserts nothing and leaves the table as it is. *)
Theorem main_twice json_load fs file r t1 :
  main json_load fs true file = Some r →
  database r = Some {| conn := Some Closed; orders_table := Some t1 |} →
  ∃ k e,
    main json_load fs true (Some t1)
    = Some {| raised := None; summary := Some (0, k, e);
              database := Some {| conn := Some Closed; orders_table := Some t1 |} |}.
Proof.
  intros H Hdb.
  apply main_inv in H as [(e & _ & ->) | (data & orders & Hload & Horders & ->)];
    [discriminate|].
  rewrite (main_loaded _ _ _ _ _ _ Hload Horders).
  simpl in Hdb. injection Hdb as Ht1. simpl default.
  destruct (insert_loop_second_run (default [] file) orders) as [Hrows Hins].
  rewrite Ht1 in Hrows, Hins. rewrite Hrows, Hins.
  by eexists _, _.
Qed.

End Loader.

(** *** load_json *)


(** *** close *)

(** C10. [close] raises in no state; it leaves an object that was never
    connected, or whose [connect] raised, as it is; and it can be
    called again after itself. *)
Theorem close_never_raises db file :
  fst (close db) = Ok () ∧
  fst (close (snd (close db))) = Ok () ∧
  snd (close (snd (close db))) = snd (close db) ∧
  close (init file) = (Ok (), init file) ∧
  connect false (init file) = (Raise OperationalError, init file) ∧
  close (snd (connect false (init file))) = (Ok (), init file).
Proof.
  unfold close. destruct db as [[c|] t]; simpl; done.
Qed.

(** ** The statements on concrete data *)

Example reference_fromisoformat :
  Reference.fromisoformat "2024-01-05T10:00:00" = Some (DateTime 2024 1 5 10 0 0 0 None)
  ∧ Reference.fromisoformat "2024-01-05" = Some (DateTime 2024 1 5 0 0 0 0 None)
  ∧ Reference.fromisoformat "2023-02-29" = None
  ∧ Reference.fromisoformat "not-a-date" = None.
Proof. vm_compute. done. Qed.

(** The [except] clauses at work: a [null] status violates NOT NULL and is
    counted as skipped; an amount that is a list cannot be bound, and a
    [customer] that is a string has no [get]: both are counted as errors. *)
Example except_clauses :
  fst (insert_orders Reference.fromisoformat
         [RawOrder (Some "N1"%string) (Some JNull) (Some (JStr "2024-01-05"))
            (Some (JInt 1)) (Some (JObj {[ "region"%string := JStr "EU" ]}));
          RawOrder (Some "N2"%string) (Some (JStr "paid")) (Some (JStr "2024-01-05"))
            (Some (JArr [])) (Some (JObj {[ "region"%string := JStr "EU" ]}));
          RawOrder (Some "N3"%string) (Some (JStr "paid")) (Some (JStr "2024-01-05"))
            (Some (JInt 1)) (Some (JStr "EU"))]
         (opened []))
  = Ok (0, 1, 2).
Proof. vm_compute. reflexivity. Qed.

(** Without a connection, or without the table, the baseline query
    raises and nothing is done. *)
Example insert_orders_fatal :
  insert_orders Reference.fromisoformat [order_A1] (init (Some []))
    = (Raise AttributeError, init (Some []))
  ∧ insert_orders Reference.fromisoformat [order_A1] (snd (close (opened [])))
    = (Raise ProgrammingError, snd (close (opened [])))
  ∧ insert_orders Reference.fromisoformat [order_A1] (snd (connect true (init None)))
    = (Raise OperationalError, snd (connect true (init None))).
Proof. vm_compute. done. Qed.

(** The run of [main] on a file without the table: connect, create the
    schema, insert the batch, close. *)
Example main_run :
  let db1 := snd (connect true (init None)) in
  let db2 := snd (create_schema db1) in
  let db3 := snd (insert_orders Reference.fromisoformat [order_A1; order_B2; order_A1] db2) in
  fst (insert_orders Reference.fromisoformat [order_A1; order_B2; order_A1] db2) = Ok (2, 1, 0)
  ∧ Sqlite.order_ids (default [] (orders_table db3)) = ["A1"; "B2"]%string
  ∧ close db3 = (Ok (), {| conn := Some Closed; orders_table := orders_table db3 |}).
Proof. vm_compute. done. Qed.

(** A document that is a number has no [len]. *)
Example load_json_scalar :
  load_json (λ _, Some (JInt 42)) {[ "orders-1.json"%string := "42"%string ]} "orders-1.json"
  = Raise TypeError.
Proof. vm_compute. reflexivity. Qed.


(** The record lacks [status] and its key is in the table: it is counted
    as skipped, not as an error. *)
Lemma missing_status_of_existing_key :
  raw_status (without_status "A1") = None ∧
  insert_orders Reference.fromisoformat [without_status "A1"] (opened [row_A1])
  = (Ok (0, 1, 0), opened [row_A1]).
Proof. vm_compute. done. Qed.

Lemma missing_field_is_rejected_witness :
  insert_order Reference.fromisoformat (baseline [row_A1]) (without_status "C3")
  = add_error (baseline [row_A1]).
Proof.
  apply (missing_field_is_rejected Reference.fromisoformat).
  - right. left. reflexivity.
  - intros oid [= <-]. vm_compute. set_solver.
Defined.

(** Two valid records with the same new key: the second is skipped. *)
Lemma repeated_key_in_batch :
  valid_order Reference.fromisoformat order_A1 = true ∧
  Sqlite.order_ids [] = [] ∧
  insert_orders Reference.fromisoformat [order_A1; order_A1] (opened [])
  = (Ok (1, 1, 0), opened [row_A1]).
Proof. vm_compute. done. Qed.

Lemma insert_orders_twice_witness :
  ∃ t1,
    insert_orders Reference.fromisoformat [order_A1; order_B2] (opened [])
      = (Ok (2, 0, 0), opened t1) ∧
    insert_orders Reference.fromisoformat [order_A1; order_B2] (opened t1)
      = (Ok (0, 2, 0), opened t1) ∧
    (∀ oid, oid ∈ batch_ids [order_A1; order_B2] → length (rows_of oid t1) = 1%nat) ∧
    (NoDup (Sqlite.order_ids []) → NoDup (Sqlite.order_ids t1)).
Proof.
  apply (insert_orders_twice Reference.fromisoformat [] [order_A1; order_B2]).
  - repeat constructor.
  - vm_compute. repeat constructor; set_solver.
  - intros oid _. apply not_elem_of_nil.
Defined.

(** The date is no timestamp and the key is in the table: the record is
    counted as skipped, not as an error. *)
Lemma bad_date_of_existing_key :
  parse_date Reference.fromisoformat (JStr "not-a-date") = Raise ValueError ∧
  insert_orders Reference.fromisoformat [with_bad_date "A1"] (opened [row_A1])
  = (Ok (0, 1, 0), opened [row_A1]).
Proof. vm_compute. done. Qed.

Lemma unparsable_date_is_rejected_witness :
  insert_order Reference.fromisoformat (baseline [row_A1]) (with_bad_date "C3")
  = add_error (baseline [row_A1])
  ∧ insert_loop Reference.fromisoformat (baseline [row_A1]) [with_bad_date "C3"; order_B2]
    = insert_loop Reference.fromisoformat
        (insert_order Reference.fromisoformat (baseline [row_A1]) (with_bad_date "C3"))
        [order_B2].
Proof.
  assert (unparsable_date Reference.fromisoformat (with_bad_date "C3")) as Hbad.
  { exists (JStr "not-a-date"), ValueError. vm_compute. done. }
  split.
  - apply (unparsable_date_is_rejected Reference.fromisoformat _ _ [] Hbad).
    intros oid [= <-]. vm_compute. set_solver.
  - apply (unparsable_date_is_rejected Reference.fromisoformat _ _ [order_B2] Hbad).
Defined.

(** The record has no [customer] and its key is in the table: it is
    counted as skipped, not as an error. *)
Lemma missing_region_of_existing_key :
  raw_customer (without_customer "A1") = None ∧
  insert_orders Reference.fromisoformat [without_customer "A1"] (opened [row_A1])
  = (Ok (0, 1, 0), opened [row_A1]).
Proof. vm_compute. done. Qed.

Lemma missing_region_is_rejected_witness :
  insert_order Reference.fromisoformat (baseline [row_A1]) (without_customer "C3")
  = add_error (baseline [row_A1]).
Proof.
  apply (missing_region_is_rejected Reference.fromisoformat).
  - left. reflexivity.
  - intros oid [= <-]. vm_compute. set_solver.
Defined.

Lemma single_order_scenario_witness :
  insert_orders Reference.fromisoformat [order_A1] (opened [])
  = (Ok (1, 0, 0), opened [row_A1]).
Proof. apply single_order_scenario. vm_compute. reflexivity. Defined.

Lemma existing_ids_superset_witness :
  list_to_set (Sqlite.order_ids
     (rows (insert_loop Reference.fromisoformat
              (loop_entry [row_A1] (list_to_set ["A1"%string])) [order_B2; order_A1])))
  ⊆ existing_ids (insert_loop Reference.fromisoformat
                    (loop_entry [row_A1] (list_to_set ["A1"%string])) [order_B2; order_A1]).
Proof.
  apply (existing_ids_superset Reference.fromisoformat (opened [row_A1])
           (list_to_set ["A1"%string]) [order_B2; order_A1]).
  reflexivity.
Defined.



(** ** Further statements on concrete data *)

Lemma inserted_exactly_when_witness :
  inserted (insert_order Reference.fromisoformat (baseline []) order_A1)
    = inserted (baseline []) + 1 ↔
  ∃ r, row_of_order Reference.fromisoformat order_A1 r ∧ row_complete r = true ∧
       Sqlite.order_id r ∉ existing_ids (baseline []).
Proof.
  apply (inserted_exactly_when Reference.fromisoformat).
  intros oid Hin. by apply elem_of_nil in Hin.
Defined.

Lemma sample_reaches_insert oid st am :
  reaches_insert Reference.fromisoformat (baseline []) (with_fields oid st am customer_EU)
    oid st (DateTime 2024 1 5 0 0 0 0 None) am (JStr "EU").
Proof.
  unfold reaches_insert. simpl. repeat split.
  - set_solver.
  - exists "2024-01-05"%string. split; [reflexivity | vm_compute; reflexivity].
  - discriminate.
Qed.

Lemma constraint_violation_is_skipped_witness :
  insert_order Reference.fromisoformat (baseline [])
    (with_fields "N1" JNull (JInt 1) customer_EU)
  = add_skipped (baseline []).
Proof.
  apply (constraint_violation_is_skipped Reference.fromisoformat _ _ _ _ _ _ _
           Sqlite.Null (Sqlite.Integer 1) (Sqlite.Text "EU")
           (sample_reaches_insert "N1" JNull (JInt 1)));
    [reflexivity..|].
  left. reflexivity.
Defined.

Lemma unbindable_value_is_rejected_witness :
  insert_order Reference.fromisoformat (baseline [])
    (with_fields "N2" JNull (JArr []) customer_EU)
  = add_error (baseline []).
Proof.
  apply (unbindable_value_is_rejected Reference.fromisoformat _ _ _ _ _ _ _
           ProgrammingError (sample_reaches_insert "N2" JNull (JArr []))).
  right. left. reflexivity.
Defined.

Lemma unusable_region_is_rejected_witness :
  insert_order Reference.fromisoformat (baseline [])
    (with_fields "N3" (JStr "paid") (JInt 1) (JStr "EU"))
  = add_error (baseline []).
Proof.
  apply (unusable_region_is_rejected Reference.fromisoformat).
  - intros oid _. simpl. set_solver.
  - left. exists (JStr "EU"). split; [reflexivity | discriminate].
Defined.

Lemma insert_A1_B2_A1 :
  insert_orders Reference.fromisoformat [order_A1; order_B2; order_A1] (opened [])
  = (Ok (2, 1, 0), opened [row_A1; row_B2]).
Proof. vm_compute. reflexivity. Qed.

Lemma insert_orders_appends_witness :
  ∃ t added,
    orders_table (opened []) = Some t ∧
    orders_table (snd (insert_orders Reference.fromisoformat
                         [order_A1; order_B2; order_A1] (opened [])))
      = Some (t ++ added) ∧
    conn (snd (insert_orders Reference.fromisoformat
                 [order_A1; order_B2; order_A1] (opened []))) = conn (opened []) ∧
    2 = Z.of_nat (length added).
Proof.
  apply (insert_orders_appends Reference.fromisoformat
           [order_A1; order_B2; order_A1] (opened []) 2 1 0).
  rewrite insert_A1_B2_A1. vm_compute. reflexivity.
Defined.


Lemma appended_rows_keep_order_witness :
  ∃ added,
    orders_table (snd (insert_orders Reference.fromisoformat
                         [order_A1; order_B2; order_A1] (opened []))) = Some ([] ++ added) ∧
    Sqlite.order_ids added `sublist_of` batch_ids [order_A1; order_B2; order_A1].
Proof.
  apply (appended_rows_keep_order Reference.fromisoformat
           [order_A1; order_B2; order_A1] (opened []) (2, 1, 0)).
  - rewrite insert_A1_B2_A1. vm_compute. reflexivity.
  - reflexivity.
Defined.

Lemma insert_orders_keeps_primary_key_witness :
  NoDup (Sqlite.order_ids [row_A1; row_B2]).
Proof.
  apply (insert_orders_keeps_primary_key Reference.fromisoformat
           [order_A1; order_B2; order_A1] (opened [row_A1]) (1, 2, 0)
           (opened [row_A1; row_B2]) [row_A1] [row_A1; row_B2]).
  - vm_compute. reflexivity.
  - reflexivity.
  - reflexivity.
  - vm_compute. apply NoDup_singleton.
Defined.

Lemma rejected_record_is_isolated_witness :
  snd (insert_orders Reference.fromisoformat
         ([order_B2] ++ with_bad_date "C3" :: [order_A1]) (opened []))
  = snd (insert_orders Reference.fromisoformat ([order_B2] ++ [order_A1]) (opened []))
  ∧ inserted (insert_loop Reference.fromisoformat (baseline [])
                ([order_B2] ++ with_bad_date "C3" :: [order_A1]))
    = inserted (insert_loop Reference.fromisoformat (baseline [])
                  ([order_B2] ++ [order_A1])).
Proof.
  apply (rejected_record_is_isolated Reference.fromisoformat
           [] [order_B2] (with_bad_date "C3") [order_A1]).
  vm_compute. reflexivity.
Defined.

(** [main] on the document of the scenario and a file without the
    table. *)
Lemma main_A1 :
  main Reference.fromisoformat decoder_A1 files_A1 true None
  = Some {| raised := None; summary := Some (1, 0, 0);
            database := Some {| conn := Some Closed; orders_table := Some [row_A1] |} |}.
Proof. vm_compute. reflexivity. Qed.

Lemma main_cannot_connect :
  main Reference.fromisoformat decoder_A1 files_A1 false (Some [row_A1])
  = Some {| raised := Some OperationalError; summary := None;
            database := Some (init (Some [row_A1])) |}.
Proof. vm_compute. reflexivity. Qed.

Lemma main_releases_connection_witness :
  conn {| conn := Some Closed; orders_table := Some [row_A1] |} = Some Closed ∨
  (conn {| conn := Some Closed; orders_table := Some [row_A1] |} = None ∧ true = false).
Proof.
  apply (main_releases_connection Reference.fromisoformat decoder_A1 files_A1 true None
           _ _ main_A1).
  reflexivity.
Defined.

Lemma main_failure_witness :
  (None : option (Z * Z * Z)) = None ∧
  orders_table (init (Some [row_A1])) = Some [row_A1] ∧
  ∃ data, load_json decoder_A1 files_A1 "orders-1.json" = Ok data.
Proof.
  exact (main_failure Reference.fromisoformat decoder_A1 files_A1 false (Some [row_A1])
           _ main_cannot_connect).
Defined.

Lemma insert_orders_raises_witness :
  insert_orders Reference.fromisoformat [order_A1] (snd (close (opened [row_A1])))
  = (Raise ProgrammingError, snd (close (opened [row_A1]))).
Proof.
  apply (insert_orders_raises Reference.fromisoformat [order_A1]
           (snd (close (opened [row_A1])))).
  reflexivity.
Defined.


Lemma main_twice_witness :
  ∃ k e,
    main Reference.fromisoformat decoder_A1 files_A1 true (Some [row_A1])
    = Some {| raised := None; summary := Some (0, k, e);
              database := Some {| conn := Some Closed; orders_table := Some [row_A1] |} |}.
Proof.
  apply (main_twice Reference.fromisoformat decoder_A1 files_A1 None _ [row_A1] main_A1).
  reflexivity.
Defined.
